(** * Subscription and feature-gating hooks: [frontend/src/hooks/useSubscriptions.ts]

    A shallow embedding of the hooks of [useSubscriptions.ts] and the
    properties their callers rely on.

    - JavaScript strings are sequences of UTF-16 code units ([jsstring]).
    - An [async] function is a computation over the browser [World]: it
      reads [window.location], may issue remote calls through the actor, and
      settles as fulfilled or rejected.
    - A hook is identified with the options object it hands to react-query's
      [useQuery] / [useMutation]; the cache and observer machinery of that
      library is not part of this file. *)

From Stdlib Require Import ZArith NArith List String Ascii Lia.
From stdpp Require Import base decidable countable list gmap.

Local Open Scope string_scope.
Local Open Scope list_scope.

(* ------------------------------------------------------------------ *)
(** ** JavaScript strings *)

(** A string value: its UTF-16 code units, each in [0, 65535]. *)
Definition jsstring : Type := list N.

(** The code unit of a Latin-1 character. *)
Definition unit_of (a : ascii) : N := N_of_ascii a.

(** An ASCII literal of the source text, as a [jsstring]. *)
Definition js (s : string) : jsstring := List.map unit_of (list_ascii_of_string s).

(** The double quote, which a literal cannot hold. *)
Definition dquote : N := 34%N.

(** [quoted s] is [s] between double quotes, as it appears inside a JSON text. *)
Definition quoted (s : string) : jsstring := dquote :: js s ++ [dquote].

(* ------------------------------------------------------------------ *)
(** ** Thrown values and settled promises *)

Inductive thrown : Type :=
| Error (message : jsstring)          (** [new Error(message)] *)
| SyntaxError                          (** raised by [JSON.parse]; the message is engine-defined *)
| RemoteFailure (reason : jsstring).   (** whatever the actor's promise was rejected with *)

Inductive settled (A : Type) : Type :=
| Fulfilled (value : A)
| Rejected (reason : thrown).
Arguments Fulfilled {A} value.
Arguments Rejected {A} reason.

(* ------------------------------------------------------------------ *)
(** ** Types of the module *)

Inductive FeatureScope : Type := user | club | team.

Definition FeatureScope_str (s : FeatureScope) : jsstring :=
  match s with
  | user => js "user"
  | club => js "club"
  | team => js "team"
  end.

Inductive Plan : Type := Free | Plus | Pro.

Record FeatureAccess : Type := mkFeatureAccess {
  hasAccess : bool;
  plan : option Plan;
  reason : option jsstring
}.

(** [quantity] is a JavaScript number; this layer only forwards it. *)
Record ShoppingItem : Type := mkShoppingItem {
  priceId : jsstring;
  quantity : Z
}.

Inductive SubscriptionState : Type := active | canceled | none.

Record SubscriptionStatus : Type := mkSubscriptionStatus {
  status_plan : Plan;
  status : SubscriptionState
}.

Record SubscriptionEntry : Type := mkSubscriptionEntry {
  sub_id : jsstring;
  sub_plan : Plan;
  sub_status : jsstring
}.

Record UpgradeOpts : Type := mkUpgradeOpts {
  paymentMethodId : option jsstring
}.

Record MutationOutcome : Type := mkMutationOutcome {
  success : bool
}.

Record CheckoutSession : Type := mkCheckoutSession {
  id : jsstring;
  url : jsstring
}.

(* ------------------------------------------------------------------ *)
(** ** The world an async function runs in *)

(** [window.location], as far as this file reads it. *)
Record Location : Type := mkLocation {
  protocol : jsstring;
  host : jsstring
}.

(** One outbound [actor.createCheckoutSession(items, successUrl, cancelUrl)]. *)
Record RemoteCall : Type := mkRemoteCall {
  call_items : list ShoppingItem;
  call_successUrl : jsstring;
  call_cancelUrl : jsstring
}.

Record World : Type := mkWorld {
  location : Location;
  outbound : list RemoteCall     (** remote calls issued so far, oldest first *)
}.

(** The actor handle returned by [useActor]. How the backend settles a call
    may depend on the call and on every call it received before. *)
Record Actor : Type := mkActor {
  createCheckoutSession : list RemoteCall -> RemoteCall -> settled jsstring
}.

(** An [async] computation: from the world before to its settlement and the
    world after. *)
Definition Async (A : Type) : Type := World -> settled A * World.

Definition ret {A} (a : A) : Async A := fun w => (Fulfilled a, w).

Definition throw {A} (e : thrown) : Async A := fun w => (Rejected e, w).

Definition bind {A B} (m : Async A) (k : A -> Async B) : Async B :=
  fun w =>
    match m w with
    | (Fulfilled a, w') => k a w'
    | (Rejected e, w') => (Rejected e, w')
    end.

Declare Scope async_scope.
Delimit Scope async_scope with async.
Notation "x <- m ;; k" := (bind m (fun x => k))
  (at level 100, m at next level, right associativity) : async_scope.
Local Open Scope async_scope.

(** [window.location.protocol] and [window.location.host]. *)
Definition window_location_protocol : Async jsstring :=
  fun w => (Fulfilled (protocol (location w)), w).

Definition window_location_host : Async jsstring :=
  fun w => (Fulfilled (host (location w)), w).

(** [await actor.createCheckoutSession(items, successUrl, cancelUrl)]: the call
    goes out, and the awaited promise settles as the backend decides. *)
Definition await_createCheckoutSession (actor : Actor)
    (items : list ShoppingItem) (successUrl cancelUrl : jsstring) : Async jsstring :=
  fun w =>
    let c := mkRemoteCall items successUrl cancelUrl in
    (createCheckoutSession actor (outbound w) c,
     mkWorld (location w) (outbound w ++ [c])).

(* ------------------------------------------------------------------ *)
(** ** react-query option objects *)

(** An element of a query key; [None] is [undefined]. *)
Definition QueryKeyPart : Type := option jsstring.

Record UseQueryOptions (A : Type) : Type := mkUseQueryOptions {
  queryKey : list QueryKeyPart;
  queryFn : Async A;
  staleTime : Z
}.
Arguments mkUseQueryOptions {A} _ _ _.
Arguments queryKey {A} _.
Arguments queryFn {A} _.
Arguments staleTime {A} _.

Record UseMutationOptions (I O : Type) : Type := mkUseMutationOptions {
  mutationFn : I -> Async O
}.
Arguments mkUseMutationOptions {I O} _.
Arguments mutationFn {I O} _ _.

(* ------------------------------------------------------------------ *)
(** ** Feature access *)

(** [new Set<string>([ ])]: the always-free allow-list of the query function. *)
Definition freeAllowed : gset jsstring := list_to_set [].

Definition useCanAccessFeature (feature : jsstring)
    (scope : option FeatureScope) (scopeId : option jsstring)
    : UseQueryOptions FeatureAccess :=
  let scope := default user scope in
  mkUseQueryOptions
    [Some (js "feature-access"); Some feature; Some (FeatureScope_str scope); scopeId]
    (if bool_decide (feature ∈ freeAllowed)
     then ret (mkFeatureAccess true (Some Free) None)
     else ret (mkFeatureAccess false (Some Free) (Some (js "stubbed"))))
    60000.

Definition useFeatureAccess := useCanAccessFeature.

Definition useCanAccessProFeatures : UseQueryOptions FeatureAccess :=
  useCanAccessFeature (js "pro_features") (Some user) None.

Definition useCanAccessAdvancedChat (scope : option FeatureScope)
    (scopeId : option jsstring) : UseQueryOptions FeatureAccess :=
  let scope := default club scope in
  useCanAccessFeature (js "advanced_chat") (Some scope) scopeId.

Definition useCanAccessSocialFeed (scope : option FeatureScope)
    (scopeId : option jsstring) : UseQueryOptions FeatureAccess :=
  let scope := default club scope in
  useCanAccessFeature (js "social_feed") (Some scope) scopeId.

Definition useCanCreateUnlimitedAnnouncements (scope : option FeatureScope)
    (scopeId : option jsstring) : UseQueryOptions FeatureAccess :=
  let scope := default club scope in
  useCanAccessFeature (js "unlimited_announcements") (Some scope) scopeId.

(* ------------------------------------------------------------------ *)
(** ** Subscription status (stubs) *)

Definition useGetSubscriptionStatus : UseQueryOptions SubscriptionStatus :=
  mkUseQueryOptions [Some (js "subscription-status")]
    (ret (mkSubscriptionStatus Free none)) 60000.

Definition useHasProAccess : UseQueryOptions bool :=
  mkUseQueryOptions [Some (js "has-pro-access")] (ret false) 60000.

Definition useGetAllSubscriptions : UseQueryOptions (list SubscriptionEntry) :=
  mkUseQueryOptions [Some (js "all-subscriptions")] (ret []) 60000.

Definition useUpgradeToProPlan : UseMutationOptions (option UpgradeOpts) MutationOutcome :=
  mkUseMutationOptions (fun _opts => ret (mkMutationOutcome false)).

Definition useCancelProSubscription : UseMutationOptions unit MutationOutcome :=
  mkUseMutationOptions (fun _ => ret (mkMutationOutcome false)).

(* ------------------------------------------------------------------ *)
(** ** [JSON.parse]

    The built-in the checkout mutation decodes the backend's reply with,
    following the JSON grammar of ECMA-404 as ECMA-262 applies it: a single
    value between optional white space; no reviver. A number is kept as
    written (its lexeme); its floating-point value is not computed. *)

Module JSON.

#[warnings="-register-all"]
Inductive value : Type :=
| Null
| Bool (b : bool)
| Number (lexeme : jsstring)
| String (s : jsstring)
| Array (elements : list value)
| Object (properties : list (jsstring * value)).

(** Defining a property that is already present overwrites its value and
    keeps its place; a new one goes last. (JavaScript lists integer-like
    keys first when it enumerates an object; nothing here enumerates.) *)
Fixpoint set_property (k : jsstring) (v : value)
    (props : list (jsstring * value)) : list (jsstring * value) :=
  match props with
  | [] => [(k, v)]
  | (k', v') :: rest =>
      if bool_decide (k' = k) then (k, v) :: rest
      else (k', v') :: set_property k v rest
  end.

(** Reading a property; [None] is [undefined]. *)
Fixpoint get_property (k : jsstring) (props : list (jsstring * value)) : option value :=
  match props with
  | [] => None
  | (k', v) :: rest => if bool_decide (k' = k) then Some v else get_property k rest
  end.

(** *** Lexical grammar *)

Inductive token : Type :=
| TLBrace | TRBrace | TLBracket | TRBracket | TColon | TComma
| TString (s : jsstring)
| TNumber (lexeme : jsstring)
| TTrue | TFalse | TNull.

(** Where a number literal stands after the characters read so far. *)
Inductive numstate : Type :=
| NMinus      (** after [-] *)
| NZero       (** integer part [0] *)
| NInt        (** integer part [1-9][0-9]* *)
| NDot        (** after [.] *)
| NFrac       (** in the fraction digits *)
| NE          (** after [e] or [E] *)
| NESign      (** after the exponent's sign *)
| NExp.       (** in the exponent digits *)

(** A number literal may end here. *)
Definition num_final (n : numstate) : bool :=
  match n with
  | NZero | NInt | NFrac | NExp => true
  | NMinus | NDot | NE | NESign => false
  end.

(** The lexer reads one code unit at a time; buffers are kept reversed. *)
Inductive lexstate : Type :=
| LStart                                       (** between tokens *)
| LString (buf : jsstring)                     (** inside a string literal *)
| LEscape (buf : jsstring)                     (** after a backslash *)
| LHex (buf : jsstring) (todo : nat) (acc : N) (** in the digits of a u-escape *)
| LNumber (n : numstate) (buf : jsstring)      (** inside a number literal *)
| LLiteral (rest : jsstring) (t : token).      (** inside [true], [false], [null] *)

Definition is_char (c : N) (a : ascii) : bool := N.eqb c (unit_of a).

Definition is_ws (c : N) : bool :=
  N.eqb c 9 || N.eqb c 10 || N.eqb c 13 || N.eqb c 32.

Definition is_digit (c : N) : bool := N.leb 48 c && N.leb c 57.

Definition is_digit19 (c : N) : bool := N.leb 49 c && N.leb c 57.

Definition hex_value (c : N) : option N :=
  if N.leb 48 c && N.leb c 57 then Some (c - 48)%N
  else if N.leb 65 c && N.leb c 70 then Some (c - 55)%N
  else if N.leb 97 c && N.leb c 102 then Some (c - 87)%N
  else None.

(** The character an escape letter stands for. *)
Definition escape_value (c : N) : option N :=
  if N.eqb c 34 then Some 34%N            (* quote *)
  else if N.eqb c 92 then Some 92%N       (* backslash *)
  else if N.eqb c 47 then Some 47%N       (* slash *)
  else if is_char c "b" then Some 8%N
  else if is_char c "f" then Some 12%N
  else if is_char c "n" then Some 10%N
  else if is_char c "r" then Some 13%N
  else if is_char c "t" then Some 9%N
  else None.

(** One step of the number automaton; [None] when [c] does not continue it. *)
Definition num_step (n : numstate) (c : N) : option numstate :=
  match n with
  | NMinus => if is_char c "0" then Some NZero
              else if is_digit19 c then Some NInt else None
  | NZero => if is_char c "." then Some NDot
             else if is_char c "e" || is_char c "E" then Some NE else None
  | NInt => if is_digit c then Some NInt
            else if is_char c "." then Some NDot
            else if is_char c "e" || is_char c "E" then Some NE else None
  | NDot => if is_digit c then Some NFrac else None
  | NFrac => if is_digit c then Some NFrac
             else if is_char c "e" || is_char c "E" then Some NE else None
  | NE => if is_char c "+" || is_char c "-" then Some NESign
          else if is_digit c then Some NExp else None
  | NESign => if is_digit c then Some NExp else None
  | NExp => if is_digit c then Some NExp else None
  end.

(** A step yields the tokens completed by the character and the next state. *)
Definition start_step (c : N) : option (list token * lexstate) :=
  if is_ws c then Some ([], LStart)
  else if is_char c "{" then Some ([TLBrace], LStart)
  else if is_char c "}" then Some ([TRBrace], LStart)
  else if is_char c "[" then Some ([TLBracket], LStart)
  else if is_char c "]" then Some ([TRBracket], LStart)
  else if is_char c ":" then Some ([TColon], LStart)
  else if is_char c "," then Some ([TComma], LStart)
  else if N.eqb c 34 then Some ([], LString [])
  else if is_char c "-" then Some ([], LNumber NMinus [c])
  else if is_char c "0" then Some ([], LNumber NZero [c])
  else if is_digit19 c then Some ([], LNumber NInt [c])
  else if is_char c "t" then Some ([], LLiteral (js "rue") TTrue)
  else if is_char c "f" then Some ([], LLiteral (js "alse") TFalse)
  else if is_char c "n" then Some ([], LLiteral (js "ull") TNull)
  else None.

Definition lex_step (st : lexstate) (c : N) : option (list token * lexstate) :=
  match st with
  | LStart => start_step c
  | LString buf =>
      if N.eqb c 34 then Some ([TString (rev buf)], LStart)
      else if N.eqb c 92 then Some ([], LEscape buf)
      else if N.ltb c 32 then None
      else Some ([], LString (c :: buf))
  | LEscape buf =>
      if is_char c "u" then Some ([], LHex buf 4 0%N)
      else match escape_value c with
           | Some e => Some ([], LString (e :: buf))
           | None => None
           end
  | LHex buf todo acc =>
      match hex_value c with
      | Some h =>
          let acc' := (16 * acc + h)%N in
          match todo with
          | 0%nat => None
          | 1%nat => Some ([], LString (acc' :: buf))
          | S todo' => Some ([], LHex buf todo' acc')
          end
      | None => None
      end
  | LNumber n buf =>
      match num_step n c with
      | Some n' => Some ([], LNumber n' (c :: buf))
      | None =>
          if num_final n then
            match start_step c with
            | Some (ts, st') => Some (TNumber (rev buf) :: ts, st')
            | None => None
            end
          else None
      end
  | LLiteral rest t =>
      match rest with
      | [] => None
      | e :: rest' =>
          if N.eqb c e then
            match rest' with
            | [] => Some ([t], LStart)
            | _ :: _ => Some ([], LLiteral rest' t)
            end
          else None
      end
  end.

(** What the end of the text completes. *)
Definition lex_end (st : lexstate) : option (list token) :=
  match st with
  | LStart => Some []
  | LNumber n buf => if num_final n then Some [TNumber (rev buf)] else None
  | _ => None
  end.

Fixpoint lex (st : lexstate) (text : jsstring) : option (list token) :=
  match text with
  | [] => lex_end st
  | c :: text' =>
      match lex_step st c with
      | Some (ts, st') =>
          match lex st' text' with
          | Some ts' => Some (ts ++ ts')
          | None => None
          end
      | None => None
      end
  end.

(** *** Syntactic grammar *)

Inductive presult (A : Type) : Type :=
| POk (a : A)
| PSyntax       (** the tokens are not a JSON text *)
| PFuel.        (** recursion budget exhausted *)
Arguments POk {A} a.
Arguments PSyntax {A}.
Arguments PFuel {A}.

Fixpoint parse_value (fuel : nat) (ts : list token) : presult (value * list token) :=
  match fuel with
  | O => PFuel
  | S fuel' =>
      match ts with
      | TNull :: r => POk (Null, r)
      | TTrue :: r => POk (Bool true, r)
      | TFalse :: r => POk (Bool false, r)
      | TNumber n :: r => POk (Number n, r)
      | TString s :: r => POk (String s, r)
      | TLBracket :: TRBracket :: r => POk (Array [], r)
      | TLBracket :: r => parse_elements fuel' r []
      | TLBrace :: TRBrace :: r => POk (Object [], r)
      | TLBrace :: r => parse_members fuel' r []
      | _ => PSyntax
      end
  end
with parse_elements (fuel : nat) (ts : list token) (acc : list value)
    : presult (value * list token) :=
  match fuel with
  | O => PFuel
  | S fuel' =>
      match parse_value fuel' ts with
      | POk (v, TComma :: r) => parse_elements fuel' r (v :: acc)
      | POk (v, TRBracket :: r) => POk (Array (rev (v :: acc)), r)
      | POk _ => PSyntax
      | PSyntax => PSyntax
      | PFuel => PFuel
      end
  end
with parse_members (fuel : nat) (ts : list token) (acc : list (jsstring * value))
    : presult (value * list token) :=
  match fuel with
  | O => PFuel
  | S fuel' =>
      match ts with
      | TString k :: TColon :: r =>
          match parse_value fuel' r with
          | POk (v, TComma :: r') => parse_members fuel' r' (set_property k v acc)
          | POk (v, TRBrace :: r') => POk (Object (set_property k v acc), r')
          | POk _ => PSyntax
          | PSyntax => PSyntax
          | PFuel => PFuel
          end
      | _ => PSyntax
      end
  end.

(** The budget [parse] gives the parser for [ts]. *)
Definition budget (ts : list token) : nat := S (2 * length ts).

Definition parse_tokens (ts : list token) : presult value :=
  match parse_value (budget ts) ts with
  | POk (v, []) => POk v
  | POk (_, _ :: _) => PSyntax
  | PSyntax => PSyntax
  | PFuel => PFuel
  end.

(** [JSON.parse(text)]: the value, or [None] where it throws a [SyntaxError]. *)
Definition parse (text : jsstring) : option value :=
  match lex LStart text with
  | Some ts =>
      match parse_tokens ts with
      | POk v => Some v
      | _ => None
      end
  | None => None
  end.

(** What a parser call must deliver: not [PFuel], and on success strictly
    fewer tokens left than it was given. *)
Definition progress (ts : list token) (r : presult (value * list token)) : Prop :=
  match r with
  | POk (_, rest) => length rest < length ts
  | PSyntax => True
  | PFuel => False
  end.

End JSON.

(* ------------------------------------------------------------------ *)
(** ** Stripe checkout *)

(** [JSON.parse(result)] inside an async function: a [SyntaxError] rejects. *)
Definition JSON_parse (text : jsstring) : Async JSON.value :=
  match JSON.parse text with
  | Some v => ret v
  | None => throw SyntaxError
  end.

(** [JSON.parse(result) as CheckoutSession] is a compile-time assertion: the
    mutation settles with whatever value the text denotes. *)
Definition useCreateCheckoutSession (actor : option Actor)
    : UseMutationOptions (list ShoppingItem) JSON.value :=
  mkUseMutationOptions (fun items =>
    match actor with
    | None => throw (Error (js "Actor not available"))
    | Some actor =>
        location_protocol <- window_location_protocol ;;
        location_host <- window_location_host ;;
        let baseUrl := location_protocol ++ js "//" ++ location_host in
        let successUrl := baseUrl ++ js "/payment-success" in
        let cancelUrl := baseUrl ++ js "/payment-failure" in
        result <- await_createCheckoutSession actor items successUrl cancelUrl ;;
        JSON_parse result
    end).

(** The value a [CheckoutSession] record is at run time. *)
Definition CheckoutSession_value (s : CheckoutSession) : JSON.value :=
  JSON.Object [(js "id", JSON.String (id s)); (js "url", JSON.String (url s))].

(** Reading a run-time value as a [CheckoutSession]: an object whose [id]
    and [url] properties are strings. *)
Definition as_CheckoutSession (v : JSON.value) : option CheckoutSession :=
  match v with
  | JSON.Object props =>
      match JSON.get_property (js "id") props, JSON.get_property (js "url") props with
      | Some (JSON.String i), Some (JSON.String u) => Some (mkCheckoutSession i u)
      | _, _ => None
      end
  | _ => None
  end.

(** Decoding a reply all the way to a [CheckoutSession] record. *)
Definition decode_CheckoutSession (text : jsstring) : option CheckoutSession :=
  match JSON.parse text with
  | Some v => as_CheckoutSession v
  | None => None
  end.

(* ------------------------------------------------------------------ *)
(** ** The specification's vocabulary *)

(** The current origin: protocol, two slashes, host. *)
Definition origin (l : Location) : jsstring := protocol l ++ js "//" ++ host l.

(** The remote call the specification expects for [items] at location [l]. *)
Definition checkout_call (l : Location) (items : list ShoppingItem) : RemoteCall :=
  mkRemoteCall items (origin l ++ js "/payment-success") (origin l ++ js "/payment-failure").

(** A convenience check as the specification words it: the base check at a
    fixed feature name, the scope defaulting to [dflt], with scope and
    scopeId handed on unchanged. *)
Definition convenience_check (feature : jsstring) (dflt : FeatureScope)
    (scope : option FeatureScope) (scopeId : option jsstring)
    : UseQueryOptions FeatureAccess :=
  match scope with
  | Some s => useCanAccessFeature feature (Some s) scopeId
  | None => useCanAccessFeature feature (Some dflt) scopeId
  end.

Definition access_granted : FeatureAccess := mkFeatureAccess true (Some Free) None.

Definition access_stubbed : FeatureAccess :=
  mkFeatureAccess false (Some Free) (Some (js "stubbed")).

(** The reply of the specification's example, and the record it denotes. *)
Definition payload_cs_1 : jsstring :=
  js "{" ++ quoted "id" ++ js ":" ++ quoted "cs_1" ++ js "," ++
  quoted "url" ++ js ":" ++ quoted "https://pay.example/cs_1" ++ js "}".

(** A code unit that stands for itself inside a JSON string literal. *)
Definition plain_unit (c : N) : bool :=
  negb (N.ltb c 32) && negb (N.eqb c 34) && negb (N.eqb c 92).

(** The JSON text of a session whose fields need no escaping. *)
Definition session_text (s : CheckoutSession) : jsstring :=
  js "{" ++ quoted "id" ++ js ":" ++ (dquote :: id s ++ [dquote]) ++ js "," ++
  quoted "url" ++ js ":" ++ (dquote :: url s ++ [dquote]) ++ js "}".

Definition session_cs_1 : CheckoutSession :=
  mkCheckoutSession (js "cs_1") (js "https://pay.example/cs_1").

(** A reply that is JSON but no checkout session. *)
Definition payload_error : jsstring :=
  js "{" ++ quoted "error" ++ js ":" ++ quoted "card_declined" ++ js "}".

(** Sample worlds and actors. *)
Definition world_at (proto hostname : string) : World :=
  mkWorld (mkLocation (js proto) (js hostname)) [].

Definition actor_replying (text : jsstring) : Actor :=
  mkActor (fun _ _ => Fulfilled text).

Definition actor_failing (e : thrown) : Actor :=
  mkActor (fun _ _ => Rejected e).

Definition sample_items : list ShoppingItem :=
  [mkShoppingItem (js "price_pro_monthly") 1].

(* ------------------------------------------------------------------ *)
(** ** Callers *)

(** A text without a slash, as a URL scheme with its colon is
    ([window.location.protocol] is [https:], [http:], [file:], ...). *)
Definition no_slash (s : jsstring) : bool :=
  forallb (fun c => negb (N.eqb c 47)) s.

(** A caller running a mutation function once per input, one run after the
    other; a run that rejects does not stop the later ones. *)
Fixpoint invoke_each {I O} (m : UseMutationOptions I O) (inputs : list I)
    (w : World) : list (settled O) * World :=
  match inputs with
  | [] => ([], w)
  | i :: rest =>
      let (r, w1) := mutationFn m i w in
      let (rs, w2) := invoke_each m rest w1 in
      (r :: rs, w2)
  end.

(** The lexer states [lex] can be in: the letters still awaited of a
    literal are never white space. *)
Definition lex_reachable (st : JSON.lexstate) : Prop :=
  match st with
  | JSON.LLiteral rest _ => forallb (fun e => negb (JSON.is_ws e)) rest = true
  | _ => True
  end.

(* ------------------------------------------------------------------ *)
(** * Properties *)

(** ** The parser's budget is never exhausted *)

Module JSONFacts.
Import JSON.

Lemma progress_weaken ts ts' r :
  length ts <= length ts' -> progress ts r -> progress ts' r.
Proof. destruct r as [[v rest]| |]; simpl; [lia | trivial | trivial]. Qed.

Lemma parse_progress fuel :
  (forall ts, 2 * length ts < fuel -> progress ts (parse_value fuel ts)) /\
  (forall ts acc, 2 * length ts + 1 < fuel -> progress ts (parse_elements fuel ts acc)) /\
  (forall ts acc, 2 * length ts + 1 < fuel -> progress ts (parse_members fuel ts acc)).
Proof.
  induction fuel as [|fuel (IHv & IHe & IHm)].
  - repeat split; intros; lia.
  - split; [|split].
    + intros ts Hlen.
      destruct ts as [|t r]; [exact I|].
      destruct t; try (simpl; lia); try exact I.
      * (* an object *)
        assert (Hm : progress r (parse_members fuel r [])).
        { apply IHm. simpl in *. lia. }
        destruct r as [|t' r'];
          [eapply progress_weaken; [|exact Hm]; simpl; lia|].
        destruct t'; try (simpl; lia);
          (eapply progress_weaken; [|exact Hm]; simpl; lia).
      * (* an array *)
        assert (He : progress r (parse_elements fuel r [])).
        { apply IHe. simpl in *. lia. }
        destruct r as [|t' r'];
          [eapply progress_weaken; [|exact He]; simpl; lia|].
        destruct t'; try (simpl; lia);
          (eapply progress_weaken; [|exact He]; simpl; lia).
    + intros ts acc Hlen.
      cbn [parse_elements].
      assert (Hv : progress ts (parse_value fuel ts)) by (apply IHv; lia).
      destruct (parse_value fuel ts) as [[v rest]| |]; [|exact I|exact Hv].
      simpl in Hv.
      destruct rest as [|t rest]; [exact I|].
      destruct t; try exact I.
      * simpl. simpl in Hv. lia.
      * eapply progress_weaken; [|apply IHe]; simpl in *; lia.
    + intros ts acc Hlen.
      cbn [parse_members].
      destruct ts as [|t r]; [exact I|].
      destruct t; try exact I.
      destruct r as [|t' r]; [exact I|].
      destruct t'; try exact I.
      assert (Hv : progress r (parse_value fuel r)).
      { apply IHv. simpl in *. lia. }
      destruct (parse_value fuel r) as [[v rest]| |]; [|exact I|exact Hv].
      simpl in Hv.
      destruct rest as [|t rest]; [exact I|].
      destruct t; try exact I.
      * simpl. simpl in Hv. lia.
      * eapply progress_weaken; [|apply IHm]; simpl in *; lia.
Qed.

(** With the budget [parse] gives it, the parser always answers. *)
Lemma parse_tokens_answers ts : parse_tokens ts <> PFuel.
Proof.
  unfold parse_tokens.
  pose proof (proj1 (parse_progress (budget ts)) ts) as H.
  unfold budget in *.
  specialize (H ltac:(lia)).
  destruct (parse_value (S (2 * length ts)) ts) as [[v [|t rest]]| |];
    [discriminate | discriminate | discriminate | exact (False_ind _ H)].
Qed.

(** So [parse text = None] means a syntax error, in the lexer or the parser. *)
Lemma parse_None text :
  parse text = None <->
  lex LStart text = None \/
  exists ts, lex LStart text = Some ts /\ parse_tokens ts = PSyntax.
Proof.
  unfold parse.
  destruct (lex LStart text) as [ts|]; [|tauto].
  pose proof (parse_tokens_answers ts) as Hfuel.
  destruct (parse_tokens ts) as [v| |] eqn:E; split; intros H.
  - discriminate.
  - destruct H as [H|(ts' & H & Hs)]; [discriminate|]. congruence.
  - right. eauto.
  - reflexivity.
  - contradiction.
  - reflexivity.
Qed.

(** A run of plain code units up to the closing quote is one string token. *)
Lemma lex_plain_string s : forall buf rest,
  forallb plain_unit s = true ->
  lex (LString buf) (s ++ dquote :: rest) =
  match lex LStart rest with
  | Some ts => Some (TString (rev buf ++ s) :: ts)
  | None => None
  end.
Proof.
  induction s as [|c s IH]; intros buf rest Hplain.
  - simpl. rewrite app_nil_r. destruct (lex LStart rest); reflexivity.
  - simpl in Hplain. apply andb_prop in Hplain as [Hc Hs].
    unfold plain_unit in Hc.
    apply andb_prop in Hc as [Hc H92]. apply andb_prop in Hc as [H32 H34].
    apply negb_true_iff in H32, H34, H92.
    cbn [app lex lex_step]. rewrite H34, H92, H32.
    rewrite (IH (c :: buf) rest Hs).
    cbn [rev]. rewrite <- app_assoc.
    destruct (lex LStart rest); reflexivity.
Qed.

(** The text of a session with plain fields reads back as that session. *)
Lemma parse_session_text (s : CheckoutSession) :
  forallb plain_unit (id s) = true ->
  forallb plain_unit (url s) = true ->
  parse (session_text s) = Some (CheckoutSession_value s).
Proof.
  intros Hid Hurl.
  unfold parse, session_text, quoted.
  cbn [app].
  rewrite <- (app_assoc (id s)), <- (app_assoc (url s)).
  simpl.
  rewrite (lex_plain_string (id s) [] _ Hid).
  simpl.
  rewrite (lex_plain_string (url s) [] _ Hurl).
  vm_compute. destruct s; reflexivity.
Qed.

Example parse_nested :
  parse (js " [1, -2.5e+3, true, null, {}, [[]]] ")
  = Some (Array [Number (js "1"); Number (js "-2.5e+3"); Bool true; Null;
                 Object []; Array [Array []]]).
Proof. vm_compute. reflexivity. Qed.

Example parse_duplicate_key :
  parse (js "{" ++ quoted "a" ++ js ":1," ++ quoted "b" ++ js ":2," ++
         quoted "a" ++ js ":3}")
  = Some (Object [(js "a", Number (js "3")); (js "b", Number (js "2"))]).
Proof. vm_compute. reflexivity. Qed.

Example parse_escapes :
  parse (dquote :: js "a\n\u00e9\ud83d\/" ++ [dquote])
  = Some (String [97; 10; 233; 55357; 47]%N).
Proof. vm_compute. reflexivity. Qed.

Example parse_rejects :
  List.map parse [([] : jsstring); js "not json"; js "[1,]"; js "01"; js "-"; js "1."; js "tru";
                  js "nulll"; js "1 2"; js "{,}"; js "[1"; js "'a'"; [dquote; 10%N; dquote]]
  = List.map (fun _ => None) (seq 0 13).
Proof. vm_compute. reflexivity. Qed.

End JSONFacts.

(* ------------------------------------------------------------------ *)
(** ** How the checkout mutation runs *)

(** With a live actor the mutation reads the location, sends one call, and
    settles by the reply. *)
Lemma checkout_run actor items w :
  mutationFn (useCreateCheckoutSession (Some actor)) items w =
  (match createCheckoutSession actor (outbound w) (checkout_call (location w) items) with
   | Fulfilled payload =>
       match JSON.parse payload with
       | Some v => Fulfilled v
       | None => Rejected SyntaxError
       end
   | Rejected e => Rejected e
   end,
   mkWorld (location w) (outbound w ++ [checkout_call (location w) items])).
Proof.
  cbv [useCreateCheckoutSession mutationFn bind window_location_protocol
       window_location_host await_createCheckoutSession JSON_parse
       checkout_call origin].
  destruct (createCheckoutSession actor _ _) as [payload|e]; [|reflexivity].
  destruct (JSON.parse payload); reflexivity.
Qed.

(* ------------------------------------------------------------------ *)
(** ** Feature access *)

Lemma freeAllowed_empty feature : feature ∉ freeAllowed.
Proof. unfold freeAllowed. simpl. set_solver. Qed.

(** C1. For every feature name, scope and optional scopeId, the feature-access
    check fulfils with [{ hasAccess: true, plan: 'Free' }] when the feature is
    in the allow-list and with [{ hasAccess: false, plan: 'Free', reason:
    'stubbed' }] when it is not, leaving the world as it was; scope and
    scopeId do not change the result. The proof does not look at what the
    allow-list holds. *)
Theorem useCanAccessFeature_by_allow_list feature scope scopeId w :
  queryFn (useCanAccessFeature feature scope scopeId) w =
    (Fulfilled (if bool_decide (feature ∈ freeAllowed)
                then access_granted else access_stubbed), w)
  /\ forall scope' scopeId',
       queryFn (useCanAccessFeature feature scope' scopeId') =
       queryFn (useCanAccessFeature feature scope scopeId).
Proof.
  split.
  - cbv [useCanAccessFeature queryFn].
    destruct (bool_decide (feature ∈ freeAllowed)); reflexivity.
  - intros scope' scopeId'. reflexivity.
Qed.

(** C2. The allow-list of the code is empty, so for every feature name (the
    four named ones included) and every scope and scopeId the check fulfils
    with exactly [{ hasAccess: false, plan: 'Free', reason: 'stubbed' }]; no
    input yields [hasAccess = true]. *)
Theorem useCanAccessFeature_always_stubbed feature scope scopeId w :
  queryFn (useCanAccessFeature feature scope scopeId) w = (Fulfilled access_stubbed, w)
  /\ ~ (exists a w', queryFn (useCanAccessFeature feature scope scopeId) w = (Fulfilled a, w')
                     /\ hasAccess a = true).
Proof.
  assert (E : queryFn (useCanAccessFeature feature scope scopeId) w
              = (Fulfilled access_stubbed, w)).
  { cbv [useCanAccessFeature queryFn].
    rewrite bool_decide_eq_false_2 by apply freeAllowed_empty.
    reflexivity. }
  split; [exact E|].
  intros (a & w' & Ha & Htrue).
  rewrite E in Ha. injection Ha as <- _. discriminate Htrue.
Qed.

(** C10. Each convenience check is the base check at its fixed feature name
    and default scope, with scope and scopeId handed on unchanged. *)
Theorem convenience_checks_are_base_checks :
  useCanAccessProFeatures = useCanAccessFeature (js "pro_features") (Some user) None
  /\ (forall scope scopeId,
        useCanAccessAdvancedChat scope scopeId
        = convenience_check (js "advanced_chat") club scope scopeId)
  /\ (forall scope scopeId,
        useCanAccessSocialFeed scope scopeId
        = convenience_check (js "social_feed") club scope scopeId)
  /\ (forall scope scopeId,
        useCanCreateUnlimitedAnnouncements scope scopeId
        = convenience_check (js "unlimited_announcements") club scope scopeId).
Proof.
  split; [reflexivity|].
  repeat split; intros [s|] scopeId; reflexivity.
Qed.

(* ------------------------------------------------------------------ *)
(** ** Subscription stubs *)

(** C8. The three read stubs are constant and cannot fail: in any world the
    status query fulfils with [{ plan: 'Free', status: 'none' }], the
    has-pro-access query with [false], the all-subscriptions query with the
    empty list, and the world is left as it was. *)
Theorem subscription_reads_constant w :
  queryFn useGetSubscriptionStatus w = (Fulfilled (mkSubscriptionStatus Free none), w)
  /\ queryFn useHasProAccess w = (Fulfilled false, w)
  /\ queryFn useGetAllSubscriptions w = (Fulfilled [], w).
Proof. repeat split. Qed.

(** C9. Upgrade, for every optional argument, and cancel each fulfil with
    [{ success: false }], never reject, and leave the world as it was. *)
Theorem subscription_mutations_stubbed (opts : option UpgradeOpts) w :
  mutationFn useUpgradeToProPlan opts w = (Fulfilled (mkMutationOutcome false), w)
  /\ mutationFn useCancelProSubscription tt w = (Fulfilled (mkMutationOutcome false), w).
Proof. split; reflexivity. Qed.

(* ------------------------------------------------------------------ *)
(** ** Checkout *)

(** C3. Without a live actor the mutation rejects at once with the error
    naming the unavailable actor, whatever the items, and no remote call
    goes out. *)
Theorem checkout_without_actor_rejects items w :
  mutationFn (useCreateCheckoutSession None) items w
    = (Rejected (Error (js "Actor not available")), w)
  /\ outbound (snd (mutationFn (useCreateCheckoutSession None) items w)) = outbound w.
Proof. split; reflexivity. Qed.

Lemma parse_payload_cs_1 :
  JSON.parse payload_cs_1 = Some (CheckoutSession_value session_cs_1).
Proof. vm_compute. reflexivity. Qed.

Lemma as_CheckoutSession_value s :
  as_CheckoutSession (CheckoutSession_value s) = Some s.
Proof. destruct s as [i u]. vm_compute. reflexivity. Qed.

(** C4. With a live actor whose call resolves with [payload], the mutation
    fulfils with the value [JSON.parse] reads from [payload]. For the JSON
    text of a session (fields free of quotes, backslashes and control
    characters) that value is the session's record; in particular the text
    [{"id":"cs_1","url":"https://pay.example/cs_1"}] gives the record
    [{ id: "cs_1", url: "https://pay.example/cs_1" }]. *)
Theorem checkout_resolves_with_parsed_payload actor items w payload :
  createCheckoutSession actor (outbound w) (checkout_call (location w) items)
    = Fulfilled payload ->
  (forall v, JSON.parse payload = Some v ->
     fst (mutationFn (useCreateCheckoutSession (Some actor)) items w) = Fulfilled v)
  /\ (forall s,
        forallb plain_unit (id s) = true ->
        forallb plain_unit (url s) = true ->
        payload = session_text s ->
        fst (mutationFn (useCreateCheckoutSession (Some actor)) items w)
          = Fulfilled (CheckoutSession_value s)
        /\ as_CheckoutSession (CheckoutSession_value s) = Some s)
  /\ (payload = payload_cs_1 ->
      fst (mutationFn (useCreateCheckoutSession (Some actor)) items w)
        = Fulfilled (JSON.Object
                       [(js "id", JSON.String (js "cs_1"));
                        (js "url", JSON.String (js "https://pay.example/cs_1"))])).
Proof.
  intros Hreply.
  rewrite checkout_run, Hreply. cbn [fst].
  split; [|split].
  - intros v Hv. rewrite Hv. reflexivity.
  - intros s Hid Hurl ->.
    rewrite (JSONFacts.parse_session_text s Hid Hurl).
    split; [reflexivity | apply as_CheckoutSession_value].
  - intros ->. rewrite parse_payload_cs_1. reflexivity.
Qed.

Lemma checkout_resolves_with_parsed_payload_witness :
  createCheckoutSession (actor_replying payload_cs_1)
    (outbound (world_at "https:" "app.example"))
    (checkout_call (location (world_at "https:" "app.example")) sample_items)
    = Fulfilled payload_cs_1
  /\ fst (mutationFn (useCreateCheckoutSession (Some (actor_replying payload_cs_1)))
            sample_items (world_at "https:" "app.example"))
     = Fulfilled (JSON.Object [(js "id", JSON.String (js "cs_1"));
                               (js "url", JSON.String (js "https://pay.example/cs_1"))]).
Proof.
  split; [reflexivity|].
  apply (checkout_resolves_with_parsed_payload
           (actor_replying payload_cs_1) sample_items
           (world_at "https:" "app.example") payload_cs_1).
  - reflexivity.
  - reflexivity.
Defined.

(** C5, as the specification words it, fails: a reply that is JSON but not of
    the [CheckoutSession] shape does not decode to a session, and the
    mutation fulfils with it all the same. *)
Lemma checkout_accepts_other_shape :
  createCheckoutSession (actor_replying payload_error)
    (outbound (world_at "https:" "app.example"))
    (checkout_call (location (world_at "https:" "app.example")) sample_items)
    = Fulfilled payload_error
  /\ decode_CheckoutSession payload_error = None
  /\ mutationFn (useCreateCheckoutSession (Some (actor_replying payload_error)))
       sample_items (world_at "https:" "app.example")
     = (Fulfilled (JSON.Object [(js "error", JSON.String (js "card_declined"))]),
        mkWorld (mkLocation (js "https:") (js "app.example"))
          [checkout_call (mkLocation (js "https:") (js "app.example")) sample_items])
  /\ ~ (exists e,
         fst (mutationFn (useCreateCheckoutSession (Some (actor_replying payload_error)))
                sample_items (world_at "https:" "app.example"))
         = Rejected e).
Proof.
  split; [reflexivity|].
  split; [vm_compute; reflexivity|].
  split; [vm_compute; reflexivity|].
  intros [e He]. vm_compute in He. discriminate He.
Qed.

(** C5, amended. With a live actor whose call resolves with a text that is
    not JSON (for example [not json]), the mutation rejects with the
    [SyntaxError] of [JSON.parse], after its one remote call. A text that is
    JSON is never rejected for its shape: whatever value [JSON.parse] reads
    from it, session or not, the mutation fulfils with that value as it is;
    so once the call has resolved, the only rejection is that [SyntaxError]. *)
Theorem checkout_rejects_invalid_json actor items w payload :
  createCheckoutSession actor (outbound w) (checkout_call (location w) items)
    = Fulfilled payload ->
  (JSON.parse payload = None ->
   mutationFn (useCreateCheckoutSession (Some actor)) items w
     = (Rejected SyntaxError,
        mkWorld (location w) (outbound w ++ [checkout_call (location w) items])))
  /\ (forall v,
        JSON.parse payload = Some v ->
        mutationFn (useCreateCheckoutSession (Some actor)) items w
          = (Fulfilled v,
             mkWorld (location w) (outbound w ++ [checkout_call (location w) items])))
  /\ (forall e,
        fst (mutationFn (useCreateCheckoutSession (Some actor)) items w) = Rejected e ->
        JSON.parse payload = None /\ e = SyntaxError).
Proof.
  intros Hreply.
  rewrite checkout_run, Hreply. cbn [fst].
  split; [|split].
  - intros Hparse. rewrite Hparse. reflexivity.
  - intros v Hparse. rewrite Hparse. reflexivity.
  - intros e. destruct (JSON.parse payload) as [v|].
    + discriminate.
    + intros [= <-]. split; reflexivity.
Qed.

Lemma checkout_rejects_invalid_json_witness :
  (createCheckoutSession (actor_replying (js "not json"))
     (outbound (world_at "https:" "app.example"))
     (checkout_call (location (world_at "https:" "app.example")) sample_items)
     = Fulfilled (js "not json")
   /\ JSON.parse (js "not json") = None
   /\ mutationFn (useCreateCheckoutSession (Some (actor_replying (js "not json"))))
        sample_items (world_at "https:" "app.example")
      = (Rejected SyntaxError,
         mkWorld (mkLocation (js "https:") (js "app.example"))
           [checkout_call (mkLocation (js "https:") (js "app.example")) sample_items]))
  /\ (createCheckoutSession (actor_replying payload_error)
        (outbound (world_at "https:" "app.example"))
        (checkout_call (location (world_at "https:" "app.example")) sample_items)
        = Fulfilled payload_error
      /\ JSON.parse payload_error
         = Some (JSON.Object [(js "error", JSON.String (js "card_declined"))])
      /\ mutationFn (useCreateCheckoutSession (Some (actor_replying payload_error)))
           sample_items (world_at "https:" "app.example")
         = (Fulfilled (JSON.Object [(js "error", JSON.String (js "card_declined"))]),
            mkWorld (mkLocation (js "https:") (js "app.example"))
              [checkout_call (mkLocation (js "https:") (js "app.example"))
                 sample_items])).
Proof.
  split.
  - split; [reflexivity|].
    split; [vm_compute; reflexivity|].
    apply (proj1 (checkout_rejects_invalid_json
                    (actor_replying (js "not json")) sample_items
                    (world_at "https:" "app.example") (js "not json") eq_refl)).
    vm_compute. reflexivity.
  - split; [reflexivity|].
    split; [vm_compute; reflexivity|].
    apply (proj1 (proj2 (checkout_rejects_invalid_json
                           (actor_replying payload_error) sample_items
                           (world_at "https:" "app.example") payload_error eq_refl))).
    vm_compute. reflexivity.
Defined.

(** C6. With a live actor, the call that goes out carries the items,
    [<origin>/payment-success] and [<origin>/payment-failure], the origin
    being the protocol and host of the location when the mutation runs; runs
    under two different origins send different success URLs and different
    cancel URLs. *)
Theorem checkout_urls_from_origin actor items w :
  outbound (snd (mutationFn (useCreateCheckoutSession (Some actor)) items w))
    = outbound w ++
      [mkRemoteCall items (origin (location w) ++ js "/payment-success")
                          (origin (location w) ++ js "/payment-failure")]
  /\ forall actor' items' w' c c',
       outbound (snd (mutationFn (useCreateCheckoutSession (Some actor)) items w))
         = outbound w ++ [c] ->
       outbound (snd (mutationFn (useCreateCheckoutSession (Some actor')) items' w'))
         = outbound w' ++ [c'] ->
       origin (location w) <> origin (location w') ->
       call_successUrl c <> call_successUrl c'
       /\ call_cancelUrl c <> call_cancelUrl c'.
Proof.
  split.
  - rewrite checkout_run. reflexivity.
  - intros actor' items' w' c c' Hc Hc' Hne.
    rewrite checkout_run in Hc, Hc'. simpl in Hc, Hc'.
    apply app_inv_head in Hc, Hc'.
    injection Hc as <-. injection Hc' as <-.
    unfold checkout_call. simpl.
    split; intros Heq; apply Hne; eapply app_inv_tail; exact Heq.
Qed.

Lemma checkout_urls_from_origin_witness :
  origin (location (world_at "https:" "app.example"))
    <> origin (location (world_at "http:" "localhost:3000"))
  /\ js "https://app.example/payment-success" <> js "http://localhost:3000/payment-success"
  /\ js "https://app.example/payment-failure" <> js "http://localhost:3000/payment-failure".
Proof.
  split; [vm_compute; discriminate|].
  apply (proj2 (checkout_urls_from_origin (actor_replying payload_cs_1) sample_items
                  (world_at "https:" "app.example"))
           (actor_failing (RemoteFailure (js "unreachable"))) []
           (world_at "http:" "localhost:3000")
           (checkout_call (location (world_at "https:" "app.example")) sample_items)
           (checkout_call (location (world_at "http:" "localhost:3000")) [])).
  - reflexivity.
  - reflexivity.
  - vm_compute. discriminate.
Defined.

(** C7. With a live actor every run of the mutation sends exactly one remote
    call, however it settles; and when that call fails, the mutation rejects
    with the very same reason, having sent nothing more. *)
Theorem checkout_one_call_failure_unchanged actor items w :
  (exists c,
     outbound (snd (mutationFn (useCreateCheckoutSession (Some actor)) items w))
       = outbound w ++ [c])
  /\ length (outbound (snd (mutationFn (useCreateCheckoutSession (Some actor)) items w)))
     = S (length (outbound w))
  /\ forall e,
       createCheckoutSession actor (outbound w) (checkout_call (location w) items)
         = Rejected e ->
       mutationFn (useCreateCheckoutSession (Some actor)) items w
         = (Rejected e,
            mkWorld (location w) (outbound w ++ [checkout_call (location w) items])).
Proof.
  rewrite checkout_run. cbn [snd outbound].
  split; [eexists; reflexivity|].
  split.
  - rewrite length_app. simpl. lia.
  - intros e He. rewrite He. reflexivity.
Qed.

Lemma checkout_one_call_failure_unchanged_witness :
  createCheckoutSession (actor_failing (RemoteFailure (js "canister trapped")))
    (outbound (world_at "https:" "app.example"))
    (checkout_call (location (world_at "https:" "app.example")) sample_items)
    = Rejected (RemoteFailure (js "canister trapped"))
  /\ mutationFn (useCreateCheckoutSession
                (Some (actor_failing (RemoteFailure (js "canister trapped")))))
    sample_items (world_at "https:" "app.example")
  = (Rejected (RemoteFailure (js "canister trapped")),
     mkWorld (mkLocation (js "https:") (js "app.example"))
       [checkout_call (mkLocation (js "https:") (js "app.example")) sample_items]).
Proof.
  split; [reflexivity|].
  apply (proj2 (proj2 (checkout_one_call_failure_unchanged
                         (actor_failing (RemoteFailure (js "canister trapped")))
                         sample_items (world_at "https:" "app.example")))).
  reflexivity.
Defined.

(* ------------------------------------------------------------------ *)
(** ** Query keys *)

Lemma FeatureScope_str_inj s1 s2 :
  FeatureScope_str s1 = FeatureScope_str s2 -> s1 = s2.
Proof. destruct s1, s2; intros H; try reflexivity; vm_compute in H; discriminate H. Qed.

(** X1. Two feature-access checks have the same query key exactly when they
    ask about the same feature, the same scope once an omitted scope is read
    as [user], and the same scopeId: distinct checks never share a cache
    entry, and omitting the scope is the same entry as passing [user]. *)
Theorem feature_access_key_injective f1 s1 i1 f2 s2 i2 :
  queryKey (useCanAccessFeature f1 s1 i1) = queryKey (useCanAccessFeature f2 s2 i2)
  <-> f1 = f2 /\ default user s1 = default user s2 /\ i1 = i2.
Proof.
  unfold useCanAccessFeature. cbn [queryKey]. split.
  - intros H. injection H as Hf Hs Hi.
    split; [exact Hf|]. split; [apply FeatureScope_str_inj; exact Hs | exact Hi].
  - intros (-> & -> & ->). reflexivity.
Qed.

(** X2. Whatever its arguments, a feature-access check never has the query
    key of the subscription-status, has-pro-access or all-subscriptions
    query, and those three keys differ from one another. *)
Theorem query_keys_never_collide feature scope scopeId :
  queryKey (useCanAccessFeature feature scope scopeId) <> queryKey useGetSubscriptionStatus
  /\ queryKey (useCanAccessFeature feature scope scopeId) <> queryKey useHasProAccess
  /\ queryKey (useCanAccessFeature feature scope scopeId) <> queryKey useGetAllSubscriptions
  /\ queryKey useGetSubscriptionStatus <> queryKey useHasProAccess
  /\ queryKey useGetSubscriptionStatus <> queryKey useGetAllSubscriptions
  /\ queryKey useHasProAccess <> queryKey useGetAllSubscriptions.
Proof.
  repeat split; intros H; vm_compute in H; discriminate H.
Qed.

Lemma feature_access_key_feature f1 s1 i1 f2 s2 i2 :
  queryKey (useCanAccessFeature f1 s1 i1) = queryKey (useCanAccessFeature f2 s2 i2) ->
  f1 = f2.
Proof. intros H. injection H as Hf _ _. exact Hf. Qed.

(** X3. The four convenience checks never share a query key with one
    another, whatever scopes and scopeIds they are given; a convenience
    check with its scope omitted has the key of the base check at its
    feature with scope [club]. *)
Theorem convenience_keys_distinct s1 i1 s2 i2 :
  queryKey useCanAccessProFeatures <> queryKey (useCanAccessAdvancedChat s2 i2)
  /\ queryKey useCanAccessProFeatures <> queryKey (useCanAccessSocialFeed s2 i2)
  /\ queryKey useCanAccessProFeatures <> queryKey (useCanCreateUnlimitedAnnouncements s2 i2)
  /\ queryKey (useCanAccessAdvancedChat s1 i1) <> queryKey (useCanAccessSocialFeed s2 i2)
  /\ queryKey (useCanAccessAdvancedChat s1 i1)
     <> queryKey (useCanCreateUnlimitedAnnouncements s2 i2)
  /\ queryKey (useCanAccessSocialFeed s1 i1)
     <> queryKey (useCanCreateUnlimitedAnnouncements s2 i2)
  /\ queryKey (useCanAccessAdvancedChat None i1)
     = queryKey (useCanAccessFeature (js "advanced_chat") (Some club) i1)
  /\ queryKey (useCanAccessSocialFeed None i1)
     = queryKey (useCanAccessFeature (js "social_feed") (Some club) i1)
  /\ queryKey (useCanCreateUnlimitedAnnouncements None i1)
     = queryKey (useCanAccessFeature (js "unlimited_announcements") (Some club) i1).
Proof.
  unfold useCanAccessProFeatures, useCanAccessAdvancedChat, useCanAccessSocialFeed,
    useCanCreateUnlimitedAnnouncements.
  repeat split;
    intros H; apply feature_access_key_feature in H; vm_compute in H; discriminate H.
Qed.

(** X4. With the allow-list empty, each of the four convenience checks
    fulfils with [{ hasAccess: false, plan: 'Free', reason: 'stubbed' }] for
    every scope and scopeId, in every world, and leaves the world as it was. *)
Theorem convenience_checks_all_stubbed scope scopeId w :
  queryFn useCanAccessProFeatures w = (Fulfilled access_stubbed, w)
  /\ queryFn (useCanAccessAdvancedChat scope scopeId) w = (Fulfilled access_stubbed, w)
  /\ queryFn (useCanAccessSocialFeed scope scopeId) w = (Fulfilled access_stubbed, w)
  /\ queryFn (useCanCreateUnlimitedAnnouncements scope scopeId) w
     = (Fulfilled access_stubbed, w).
Proof.
  unfold useCanAccessProFeatures, useCanAccessAdvancedChat, useCanAccessSocialFeed,
    useCanCreateUnlimitedAnnouncements, useCanAccessFeature.
  cbn [queryFn].
  repeat split;
    (rewrite bool_decide_eq_false_2 by apply freeAllowed_empty; reflexivity).
Qed.

(* ------------------------------------------------------------------ *)
(** ** More on checkout *)

(** X5. However it is invoked, with or without an actor, the checkout
    mutation never changes the location and never drops or reorders the
    calls already sent: it appends one call with a live actor and none
    without. *)
Theorem checkout_frame (actor : option Actor) items w :
  location (snd (mutationFn (useCreateCheckoutSession actor) items w)) = location w
  /\ exists sent,
       outbound (snd (mutationFn (useCreateCheckoutSession actor) items w))
         = outbound w ++ sent
       /\ sent = match actor with
                 | Some _ => [checkout_call (location w) items]
                 | None => []
                 end.
Proof.
  destruct actor as [a|].
  - rewrite checkout_run. cbn [snd location outbound].
    split; [reflexivity|]. eexists. split; reflexivity.
  - cbn. split; [reflexivity|]. exists []. rewrite app_nil_r. split; reflexivity.
Qed.

(** X6. The mutation fulfils with [v] exactly when an actor is present, its
    call resolves with some text, and that text is the JSON of [v]. It
    rejects with [e] in exactly three cases: no actor, and [e] is the error
    [Actor not available]; the call itself was rejected with [e]; or the
    call resolved with a text that is not JSON, and [e] is the
    [SyntaxError]. *)
Theorem checkout_outcome_cases (actor : option Actor) items w :
  (forall v,
     fst (mutationFn (useCreateCheckoutSession actor) items w) = Fulfilled v
     <-> exists a payload,
           actor = Some a
           /\ createCheckoutSession a (outbound w) (checkout_call (location w) items)
              = Fulfilled payload
           /\ JSON.parse payload = Some v)
  /\ (forall e,
        fst (mutationFn (useCreateCheckoutSession actor) items w) = Rejected e
        <-> (actor = None /\ e = Error (js "Actor not available"))
            \/ (exists a,
                  actor = Some a
                  /\ createCheckoutSession a (outbound w)
                       (checkout_call (location w) items) = Rejected e)
            \/ (exists a payload,
                  actor = Some a
                  /\ createCheckoutSession a (outbound w)
                       (checkout_call (location w) items) = Fulfilled payload
                  /\ JSON.parse payload = None
                  /\ e = SyntaxError)).
Proof.
  destruct actor as [a|].
  - rewrite checkout_run. cbn [fst].
    destruct (createCheckoutSession a (outbound w) (checkout_call (location w) items))
      as [payload|e0] eqn:Hreply.
    + destruct (JSON.parse payload) as [v0|] eqn:Hparse.
      * split; intros x; split.
        -- intros [= <-]. exists a, payload. auto.
        -- intros (a' & p' & Ha & Hr & Hp). congruence.
        -- discriminate.
        -- intros [[Ha _]|[(a' & Ha & Hr)|(a' & p' & Ha & Hr & Hp & _)]]; congruence.
      * split; intros x; split.
        -- discriminate.
        -- intros (a' & p' & Ha & Hr & Hp). congruence.
        -- intros [= <-]. right. right. exists a, payload. auto.
        -- intros [[Ha _]|[(a' & Ha & Hr)|(a' & p' & _ & _ & _ & ->)]];
             [congruence | congruence | reflexivity].
    + split; intros x; split.
      * discriminate.
      * intros (a' & p' & Ha & Hr & _). congruence.
      * intros [= <-]. right. left. exists a. auto.
      * intros [[Ha _]|[(a' & Ha & Hr)|(a' & p' & Ha & Hr & _)]]; congruence.
  - cbn. split; intros x; split.
    + discriminate.
    + intros (a' & p' & Ha & _). discriminate Ha.
    + intros [= <-]. left. auto.
    + intros [[_ ->]|[(a' & Ha & _)|(a' & p' & Ha & _)]];
        [reflexivity | discriminate Ha | discriminate Ha].
Qed.

Lemma invoke_each_checkout_world actor (carts : list (list ShoppingItem)) : forall w,
  snd (invoke_each (useCreateCheckoutSession (Some actor)) carts w)
    = mkWorld (location w) (outbound w ++ List.map (checkout_call (location w)) carts).
Proof.
  induction carts as [|items carts IH]; intros w.
  - cbn. rewrite app_nil_r. destruct w; reflexivity.
  - cbn [invoke_each]. rewrite checkout_run.
    specialize (IH (mkWorld (location w)
                      (outbound w ++ [checkout_call (location w) items]))).
    destruct (invoke_each (useCreateCheckoutSession (Some actor)) carts _) as [rs w2].
    cbn [fst snd location outbound] in IH |- *.
    rewrite IH, <- app_assoc. reflexivity.
Qed.

Lemma invoke_each_checkout_result actor (carts : list (list ShoppingItem)) :
  forall w (i : nat) items,
  carts !! i = Some items ->
  fst (invoke_each (useCreateCheckoutSession (Some actor)) carts w) !! i
    = Some (fst (mutationFn (useCreateCheckoutSession (Some actor)) items
                   (mkWorld (location w)
                      (outbound w ++
                       List.map (checkout_call (location w)) (take i carts))))).
Proof.
  induction carts as [|items0 carts IH]; intros w i items Hi; [discriminate Hi|].
  cbn [invoke_each]. rewrite (checkout_run actor items0 w).
  specialize (IH (mkWorld (location w)
                    (outbound w ++ [checkout_call (location w) items0]))).
  destruct (invoke_each (useCreateCheckoutSession (Some actor)) carts _) as [rs w2].
  cbn [fst snd location outbound] in IH |- *.
  destruct i as [|i].
  - injection Hi as <-. cbn [take List.map]. rewrite app_nil_r.
    rewrite checkout_run. reflexivity.
  - etransitivity; [exact (IH i items Hi)|].
    cbn [take List.map]. rewrite <- app_assoc. reflexivity.
Qed.

(** X7. A caller that runs the mutation once per cart, with a live actor,
    sends one call per cart, in the order of the carts and none merged, even
    when carts repeat or earlier runs were rejected; the location stays; and
    the run for the [i]-th cart settles as a single run does once the calls
    for the carts before it have gone out. *)
Theorem checkout_invocations_accumulate actor (carts : list (list ShoppingItem)) w :
  snd (invoke_each (useCreateCheckoutSession (Some actor)) carts w)
    = mkWorld (location w) (outbound w ++ List.map (checkout_call (location w)) carts)
  /\ forall (i : nat) items,
       carts !! i = Some items ->
       fst (invoke_each (useCreateCheckoutSession (Some actor)) carts w) !! i
         = Some (fst (mutationFn (useCreateCheckoutSession (Some actor)) items
                        (mkWorld (location w)
                           (outbound w ++
                            List.map (checkout_call (location w)) (take i carts))))).
Proof.
  split.
  - apply invoke_each_checkout_world.
  - apply invoke_each_checkout_result.
Qed.

Lemma checkout_invocations_accumulate_witness :
  [sample_items; sample_items] !! 1%nat = Some sample_items
  /\ fst (invoke_each
            (useCreateCheckoutSession (Some (actor_failing (RemoteFailure (js "busy")))))
            [sample_items; sample_items] (world_at "https:" "app.example")) !! 1%nat
     = Some (Rejected (RemoteFailure (js "busy"))).
Proof.
  split; [reflexivity|].
  apply (proj2 (checkout_invocations_accumulate
                  (actor_failing (RemoteFailure (js "busy")))
                  [sample_items; sample_items] (world_at "https:" "app.example"))
           1%nat sample_items).
  reflexivity.
Defined.

(** X8. Without an actor a caller's runs all reject with [Actor not
    available] and the world is left as it was, however many carts it
    tries. *)
Theorem checkout_invocations_without_actor (carts : list (list ShoppingItem)) w :
  invoke_each (useCreateCheckoutSession None) carts w
    = (List.map (fun _ => Rejected (Error (js "Actor not available"))) carts, w).
Proof.
  induction carts as [|items carts IH].
  - reflexivity.
  - cbn [invoke_each mutationFn useCreateCheckoutSession throw] in IH |- *.
    rewrite IH. reflexivity.
Qed.

(** X9. The success URL and the cancel URL of the call that goes out are
    never the same, whatever the location, and each starts with the origin. *)
Theorem checkout_success_cancel_differ actor items w :
  exists c,
    outbound (snd (mutationFn (useCreateCheckoutSession (Some actor)) items w))
      = outbound w ++ [c]
    /\ call_successUrl c <> call_cancelUrl c
    /\ (exists path, call_successUrl c = origin (location w) ++ path)
    /\ (exists path, call_cancelUrl c = origin (location w) ++ path).
Proof.
  rewrite checkout_run. cbn [snd outbound].
  eexists. split; [reflexivity|].
  unfold checkout_call. cbn [call_successUrl call_cancelUrl].
  split; [|split; eexists; reflexivity].
  intros H. apply app_inv_head in H. vm_compute in H. discriminate H.
Qed.

Lemma origin_parts_inj p1 : forall p2 h1 h2,
  no_slash p1 = true -> no_slash p2 = true ->
  p1 ++ js "//" ++ h1 = p2 ++ js "//" ++ h2 ->
  p1 = p2 /\ h1 = h2.
Proof.
  change (js "//") with [47%N; 47%N].
  induction p1 as [|c p1 IH]; intros [|d p2] h1 h2 H1 H2 E; cbn [app] in E.
  - injection E as ->. split; reflexivity.
  - injection E as <- _. cbn in H2. discriminate H2.
  - injection E as -> _. cbn in H1. discriminate H1.
  - injection E as -> E.
    cbn [no_slash forallb] in H1, H2.
    apply andb_prop in H1 as [_ H1]. apply andb_prop in H2 as [_ H2].
    destruct (IH p2 h1 h2 H1 H2 E) as [-> ->]. split; reflexivity.
Qed.

(** X10. When the protocols hold no slash, the URLs sent determine the
    location: two runs whose calls carry the same success URL, or the same
    cancel URL, ran under the same protocol and host. *)
Theorem checkout_urls_determine_location actor1 items1 w1 actor2 items2 w2 c1 c2 :
  no_slash (protocol (location w1)) = true ->
  no_slash (protocol (location w2)) = true ->
  outbound (snd (mutationFn (useCreateCheckoutSession (Some actor1)) items1 w1))
    = outbound w1 ++ [c1] ->
  outbound (snd (mutationFn (useCreateCheckoutSession (Some actor2)) items2 w2))
    = outbound w2 ++ [c2] ->
  (call_successUrl c1 = call_successUrl c2 -> location w1 = location w2)
  /\ (call_cancelUrl c1 = call_cancelUrl c2 -> location w1 = location w2).
Proof.
  intros Hp1 Hp2 Hc1 Hc2.
  rewrite checkout_run in Hc1, Hc2. cbn [snd outbound] in Hc1, Hc2.
  apply app_inv_head in Hc1, Hc2.
  injection Hc1 as <-. injection Hc2 as <-.
  unfold checkout_call, origin. cbn [call_successUrl call_cancelUrl].
  destruct (location w1) as [p1 h1], (location w2) as [p2 h2].
  cbn [protocol host] in *.
  split; intros H; apply app_inv_tail in H;
    destruct (origin_parts_inj p1 p2 h1 h2 Hp1 Hp2 H) as [-> ->]; reflexivity.
Qed.

Lemma checkout_urls_determine_location_witness :
  no_slash (js "https:") = true
  /\ (js "https://app.example/payment-success" = js "https://app.example/payment-success" ->
      mkLocation (js "https:") (js "app.example")
      = location (mkWorld (mkLocation (js "https:") (js "app.example"))
                    [checkout_call (mkLocation (js "http:") (js "old.example")) []])).
Proof.
  split; [reflexivity|].
  apply (checkout_urls_determine_location
           (actor_replying payload_cs_1) sample_items (world_at "https:" "app.example")
           (actor_failing SyntaxError) []
           (mkWorld (mkLocation (js "https:") (js "app.example"))
              [checkout_call (mkLocation (js "http:") (js "old.example")) []])
           (checkout_call (mkLocation (js "https:") (js "app.example")) sample_items)
           (checkout_call (mkLocation (js "https:") (js "app.example")) [])).
  - reflexivity.
  - reflexivity.
  - reflexivity.
  - reflexivity.
Defined.

(** Leading white space does not change what the lexer reads. *)
Lemma lex_leading_ws ws : forall text,
  forallb JSON.is_ws ws = true ->
  JSON.lex JSON.LStart (ws ++ text) = JSON.lex JSON.LStart text.
Proof.
  induction ws as [|c ws IH]; intros text H; [reflexivity|].
  cbn [forallb] in H. apply andb_prop in H as [Hc Hws].
  cbn [app JSON.lex JSON.lex_step]. unfold JSON.start_step. rewrite Hc.
  rewrite (IH text Hws). destruct (JSON.lex JSON.LStart text); reflexivity.
Qed.

(** X11. When the call resolves with an empty text, or with white space
    only, the mutation rejects with the [SyntaxError] of [JSON.parse], its
    one call sent. *)
Theorem checkout_rejects_blank_reply actor items w payload :
  createCheckoutSession actor (outbound w) (checkout_call (location w) items)
    = Fulfilled payload ->
  forallb JSON.is_ws payload = true ->
  mutationFn (useCreateCheckoutSession (Some actor)) items w
    = (Rejected SyntaxError,
       mkWorld (location w) (outbound w ++ [checkout_call (location w) items])).
Proof.
  intros Hreply Hblank.
  rewrite checkout_run, Hreply.
  assert (Hparse : JSON.parse payload = None).
  { unfold JSON.parse.
    rewrite <- (app_nil_r payload), (lex_leading_ws payload [] Hblank).
    reflexivity. }
  rewrite Hparse. reflexivity.
Qed.

Lemma checkout_rejects_blank_reply_witness :
  forallb JSON.is_ws [32; 10; 9]%N = true
  /\ fst (mutationFn (useCreateCheckoutSession (Some (actor_replying [32; 10; 9]%N)))
            sample_items (world_at "https:" "app.example"))
     = Rejected SyntaxError.
Proof.
  split; [reflexivity|].
  rewrite (checkout_rejects_blank_reply (actor_replying [32; 10; 9]%N) sample_items
             (world_at "https:" "app.example") [32; 10; 9]%N);
    reflexivity.
Defined.

(* ------------------------------------------------------------------ *)
(** ** White space around the reply *)

Module JSONPadding.
Import JSON.

Lemma is_ws_cases c : is_ws c = true -> c = 9%N \/ c = 10%N \/ c = 13%N \/ c = 32%N.
Proof.
  unfold is_ws. intros H.
  repeat (apply orb_prop in H as [H|H]); apply N.eqb_eq in H; auto.
Qed.

Lemma start_step_reachable c ts st' :
  start_step c = Some (ts, st') -> lex_reachable st'.
Proof.
  unfold start_step.
  repeat match goal with
         | |- context [if ?b then _ else _] => destruct b
         end;
    intros H; try discriminate H; injection H as <- <-;
    first [exact I | reflexivity].
Qed.

Lemma lex_step_reachable st c ts st' :
  lex_reachable st -> lex_step st c = Some (ts, st') -> lex_reachable st'.
Proof.
  destruct st as [|buf|buf|buf todo acc|n buf|rest t]; cbn [lex_step]; intros Hg.
  - apply start_step_reachable.
  - repeat match goal with
           | |- context [if ?b then _ else _] => destruct b
           end;
      intros H; try discriminate H; injection H as <- <-; exact I.
  - destruct (is_char c "u"); [intros [= <- <-]; exact I|].
    destruct (escape_value c); intros H; [injection H as <- <-; exact I | discriminate H].
  - destruct (hex_value c); [|discriminate].
    destruct todo as [|[|todo]]; intros H; try discriminate H;
      injection H as <- <-; exact I.
  - destruct (num_step n c); [intros [= <- <-]; exact I|].
    destruct (num_final n); [|discriminate].
    destruct (start_step c) as [[ts0 st0]|] eqn:E; [|discriminate].
    intros [= <- <-]. eapply start_step_reachable. exact E.
  - destruct rest as [|e rest']; [discriminate|].
    destruct (N.eqb c e); [|discriminate].
    destruct rest' as [|e' rest']; intros [= <- <-]; [exact I|].
    cbn [lex_reachable forallb] in Hg |- *.
    apply andb_prop in Hg as [_ Hg]. exact Hg.
Qed.

Lemma num_step_ws n c : is_ws c = true -> num_step n c = None.
Proof.
  intros H. destruct (is_ws_cases c H) as [-> | [-> | [-> | ->]]]; destruct n; reflexivity.
Qed.

(** White space up to the end of the text completes what the end would. *)
Lemma lex_blank ws : forall st,
  lex_reachable st -> forallb is_ws ws = true -> lex st ws = lex_end st.
Proof.
  induction ws as [|c ws IH]; intros st Hg Hws; [reflexivity|].
  cbn [forallb] in Hws. apply andb_prop in Hws as [Hc Hws].
  cbn [lex].
  destruct st as [|buf|buf|buf todo acc|n buf|rest t]; cbn [lex_step lex_end].
  - unfold start_step. rewrite Hc. rewrite (IH LStart I Hws). reflexivity.
  - destruct (is_ws_cases c Hc) as [-> | [-> | [-> | ->]]]; try reflexivity.
    cbn. rewrite (IH (LString (32%N :: buf)) I Hws). reflexivity.
  - destruct (is_ws_cases c Hc) as [-> | [-> | [-> | ->]]]; reflexivity.
  - destruct (is_ws_cases c Hc) as [-> | [-> | [-> | ->]]]; reflexivity.
  - rewrite (num_step_ws n c Hc).
    destruct (num_final n); [|reflexivity].
    unfold start_step. rewrite Hc. rewrite (IH LStart I Hws). reflexivity.
  - destruct rest as [|e rest']; [reflexivity|].
    cbn [lex_reachable forallb] in Hg. apply andb_prop in Hg as [He _].
    destruct (N.eqb c e) eqn:Ece; [|reflexivity].
    apply N.eqb_eq in Ece. subst e. rewrite Hc in He. discriminate He.
Qed.

Lemma lex_trailing_ws text ws : forall st,
  lex_reachable st -> forallb is_ws ws = true ->
  lex st (text ++ ws) = lex st text.
Proof.
  induction text as [|c text IH]; intros st Hg Hws.
  - apply lex_blank; assumption.
  - cbn [app lex].
    destruct (lex_step st c) as [[ts st']|] eqn:E; [|reflexivity].
    rewrite (IH st' (lex_step_reachable st c ts st' Hg E) Hws). reflexivity.
Qed.

End JSONPadding.

(** White space before and after a text does not change what it parses to. *)
Lemma parse_padding pre post text :
  forallb JSON.is_ws pre = true -> forallb JSON.is_ws post = true ->
  JSON.parse (pre ++ text ++ post) = JSON.parse text.
Proof.
  intros Hpre Hpost. unfold JSON.parse.
  rewrite (lex_leading_ws pre (text ++ post) Hpre).
  rewrite (JSONPadding.lex_trailing_ws text post JSON.LStart I Hpost).
  reflexivity.
Qed.

(** X12. White space around the reply does not matter: a run whose call
    resolves with a text padded by white space before and after settles
    with the same value or rejection as a run whose call resolves with the
    bare text. *)
Theorem checkout_ignores_reply_padding actor1 items1 w1 actor2 items2 w2 pre post payload :
  forallb JSON.is_ws pre = true ->
  forallb JSON.is_ws post = true ->
  createCheckoutSession actor1 (outbound w1) (checkout_call (location w1) items1)
    = Fulfilled (pre ++ payload ++ post) ->
  createCheckoutSession actor2 (outbound w2) (checkout_call (location w2) items2)
    = Fulfilled payload ->
  fst (mutationFn (useCreateCheckoutSession (Some actor1)) items1 w1)
  = fst (mutationFn (useCreateCheckoutSession (Some actor2)) items2 w2).
Proof.
  intros Hpre Hpost H1 H2.
  rewrite !checkout_run, H1, H2. cbn [fst].
  rewrite (parse_padding pre post payload Hpre Hpost). reflexivity.
Qed.

Lemma checkout_ignores_reply_padding_witness :
  forallb JSON.is_ws [32; 9]%N = true
  /\ forallb JSON.is_ws [13; 10]%N = true
  /\ fst (mutationFn
            (useCreateCheckoutSession
               (Some (actor_replying ([32; 9]%N ++ payload_cs_1 ++ [13; 10]%N))))
            sample_items (world_at "https:" "app.example"))
     = fst (mutationFn (useCreateCheckoutSession (Some (actor_replying payload_cs_1)))
              [] (world_at "http:" "localhost:3000")).
Proof.
  split; [reflexivity|]. split; [reflexivity|].
  apply (checkout_ignores_reply_padding
           (actor_replying ([32; 9]%N ++ payload_cs_1 ++ [13; 10]%N)) sample_items
           (world_at "https:" "app.example")
           (actor_replying payload_cs_1) [] (world_at "http:" "localhost:3000")
           [32; 9]%N [13; 10]%N payload_cs_1);
    reflexivity.
Defined.
